(** * Flight Analytics API: the route-similarity recommender

    A shallow embedding of [backend/server.py] ([get_similar_routes],
    [get_direct_routes]) and of [backend/data_ingestion.py]
    ([ingest_routes_with_embeddings]).

    Python dictionaries are association lists in insertion order, MongoDB
    documents are such dictionaries, NumPy float arrays are lists of real
    numbers (floating-point rounding is idealised away: a float is the real
    number it stands for), and an uncaught Python exception is the outcome
    [Unhandled]. *)

From Stdlib Require Import String Ascii Bool Arith ZArith Lia List.
From Stdlib Require Import Reals Lra Psatz Permutation Sorted.
Import ListNotations.

Local Open Scope string_scope.
Local Open Scope list_scope.

(** ** Python values and dictionaries *)

Definition vec := list R.
Definition matrix := list vec.

(** A byte string stored in the [embedding] field, described by what
    [pickle.loads] makes of it: the float array it was dumped from, or bytes
    that [pickle.loads] rejects. *)
Inductive binary : Type :=
| Pickled (v : vec)
| Corrupt (raw : string).

Inductive value : Type :=
| VNone
| VNaN
| VInt (z : Z)
| VFloat (x : R)
| VStr (s : string)
| VBytes (b : binary).

Definition dict := list (string * value).

(** [d.get(k)] *)
Fixpoint dict_get (k : string) (d : dict) : option value :=
  match d with
  | [] => None
  | (k', v) :: d' => if String.eqb k k' then Some v else dict_get k d'
  end.

(** [d.get(k, dflt)] *)
Definition dict_get_default (k : string) (dflt : value) (d : dict) : value :=
  match dict_get k d with
  | Some v => v
  | None => dflt
  end.

(** [d[k] = v]: an existing key keeps its place, a new key goes last. *)
Fixpoint dict_set (k : string) (v : value) (d : dict) : dict :=
  match d with
  | [] => [(k, v)]
  | (k', v') :: d' =>
      if String.eqb k k' then (k, v) :: d' else (k', v') :: dict_set k v d'
  end.

(** The field [k] projected away, as MongoDB's [{k: 0}] does. *)
Definition dict_del (k : string) (d : dict) : dict :=
  filter (fun kv => negb (String.eqb k (fst kv))) d.

Definition dict_keys (d : dict) : list string := map fst d.

Definition pickle_dumps (v : vec) : value := VBytes (Pickled v).

(** [pickle.loads(x)]: [None] stands for any exception it raises (a
    [TypeError] on a value that is not bytes, an [UnpicklingError] on bytes
    that are not a pickle). *)
Definition pickle_loads (x : value) : option vec :=
  match x with
  | VBytes (Pickled v) => Some v
  | _ => None
  end.

(** [str.upper] on ASCII text. *)
Definition upper_ascii (c : ascii) : ascii :=
  let n := nat_of_ascii c in
  if ((97 <=? n) && (n <=? 122))%nat then ascii_of_nat (n - 32) else c.

Fixpoint upper (s : string) : string :=
  match s with
  | EmptyString => EmptyString
  | String c s' => String (upper_ascii c) (upper s')
  end.

(** The slice [l[start:]]. *)
Definition slice_from {A : Type} (start : Z) (l : list A) : list A :=
  let n := Z.of_nat (length l) in
  let i := if (start <? 0)%Z then Z.max (n + start) 0 else Z.min start n in
  skipn (Z.to_nat i) l.

(** ** Outcomes of a request handler *)

Inductive outcome (A : Type) : Type :=
| Ok (a : A)
| HTTP404 (detail : string)
| Unhandled.

Arguments Ok {A} a.
Arguments HTTP404 {A} detail.
Arguments Unhandled {A}.

Definition bind {A B : Type} (m : outcome A) (f : A -> outcome B) : outcome B :=
  match m with
  | Ok a => f a
  | HTTP404 d => HTTP404 d
  | Unhandled => Unhandled
  end.

(** An exception of a library call that nothing catches. *)
Definition raising {A : Type} (o : option A) : outcome A :=
  match o with
  | Some a => Ok a
  | None => Unhandled
  end.

Fixpoint for_each {A B : Type} (f : A -> outcome B) (l : list A) : outcome (list B) :=
  match l with
  | [] => Ok []
  | x :: l' => bind (f x) (fun y => bind (for_each f l') (fun ys => Ok (y :: ys)))
  end.

(** ** Ranking: [similarities.argsort()[-top_k:][::-1]] *)

Section Ranking.
Context {A : Type} (leb : A -> A -> bool).

(** [x] goes in front of the first entry that is not below it. *)
Fixpoint insert (x : A * nat) (l : list (A * nat)) : list (A * nat) :=
  match l with
  | [] => [x]
  | y :: l' => if leb (fst x) (fst y) then x :: l else y :: insert x l'
  end.

Definition sort_pairs (l : list (A * nat)) : list (A * nat) :=
  fold_right insert [] l.

Definition enumerate (a : list A) : list (A * nat) :=
  combine a (seq 0 (length a)).

(** [a.argsort()]: the indices of [a] in ascending order of their entries.
    NumPy's default sort is an introsort that finishes short runs by
    insertion; it is modelled by the insertion sort, which keeps equal
    entries in index order. *)
Definition argsort (a : list A) : list nat :=
  map snd (sort_pairs (enumerate a)).

Definition top_indices (a : list A) (top_k : Z) : list nat :=
  rev (slice_from (- top_k) (argsort a)).
End Ranking.

Definition Rleb (x y : R) : bool := if Rle_dec x y then true else false.

(** ** Fingerprint Builder

    [TfidfVectorizer(analyzer='char_wb', ngram_range=(2, 5), max_features=128)]
    is scikit-learn's; the repository only calls it. *)

Definition max_features : nat := 128.

Definition is_space (c : ascii) : bool :=
  let n := nat_of_ascii c in
  ((n =? 32) || ((9 <=? n) && (n <=? 13)))%nat.

(** The words of a text: its maximal runs of characters that are not white
    space; [cur] is the word being read. *)
Fixpoint words_from (cur : string) (s : string) : list string :=
  match s with
  | EmptyString => if String.eqb cur "" then [] else [cur]
  | String c s' =>
      if is_space c
      then (if String.eqb cur "" then words_from "" s' else cur :: words_from "" s')
      else words_from (cur ++ String c "")%string s'
  end.

Definition words (s : string) : list string := words_from "" s.

(** Every run of [n] consecutive characters of [w], from left to right. *)
Fixpoint windows (n : nat) (w : string) : list string :=
  match w with
  | EmptyString => []
  | String _ w' =>
      if (n <=? String.length w)%nat then substring 0 n w :: windows n w' else []
  end.

(** Modelled from the spec: the feature extraction of scikit-learn's
    [char_wb] analyzer, which is not part of the repository: overlapping
    character sequences of length 2 through 5, taken inside each word padded
    with one space on either side. *)
Definition char_wb_ngrams (text : string) : list string :=
  flat_map (fun w => flat_map (fun n => windows n (" " ++ w ++ " ")%string)
                              [2; 3; 4; 5]%nat)
           (words text).

(** The entries of [l], each once, in the order they are first met. *)
Fixpoint distinct (l : list string) : list string :=
  match l with
  | [] => []
  | x :: l' => x :: filter (fun y => negb (String.eqb x y)) (distinct l')
  end.

Definition occurrences (f : string) (l : list string) : nat :=
  count_occ string_dec l f.

(** [f] goes in front of the first feature that is not more frequent. *)
Fixpoint insert_by_freq (freq : string -> nat) (f : string) (l : list string)
  : list string :=
  match l with
  | [] => [f]
  | g :: l' =>
      if (freq g <=? freq f)%nat then f :: l else g :: insert_by_freq freq f l'
  end.

Definition sort_by_freq (freq : string -> nat) (l : list string) : list string :=
  fold_right (insert_by_freq freq) [] l.

(** Modelled from the spec: the feature selection of the Fingerprint Builder
    (scikit-learn's [max_features], not part of the repository): the at most
    128 features of highest corpus-wide frequency, frequency ties broken by
    first-encountered order. *)
Definition select_features (corpus : list string) : list string :=
  let grams := flat_map char_wb_ngrams corpus in
  firstn max_features
         (sort_by_freq (fun f => occurrences f grams) (distinct grams)).

Definition document_frequency (corpus : list string) (f : string) : nat :=
  length (filter (fun text => existsb (String.eqb f) (char_wb_ngrams text)) corpus).

(** Smooth inverse document frequency: [ln ((1 + n) / (1 + df)) + 1]. *)
Definition smooth_idf (n df : nat) : R :=
  (ln ((1 + INR n) / (1 + INR df)) + 1)%R.

(** The fingerprint space: the retained features and the weight of each. *)
Record space : Type := {
  vocabulary : list string;
  idf : list R
}.

(** Modelled from the spec: [encode(space, text)], scikit-learn's
    [transform]: the term frequency of each retained feature in [text]
    times its inverse document frequency; a feature absent from [text]
    gets zero, a feature of [text] outside the vocabulary is dropped. *)
Definition encode (sp : space) (text : string) : vec :=
  map (fun fw => (INR (occurrences (fst fw) (char_wb_ngrams text)) * snd fw)%R)
      (combine (vocabulary sp) (idf sp)).

(** Modelled from the spec: the space of a corpus, its retained features
    with their smooth inverse document frequencies. *)
Definition build_space (corpus : list string) : space :=
  let voc := select_features corpus in
  {| vocabulary := voc;
     idf := map (fun f => smooth_idf (length corpus) (document_frequency corpus f))
                voc |}.

(** Modelled from the spec: fitting the space ([fit]); an empty corpus is
    the spec's [EmptyCorpusError]. *)
Definition fit (corpus : list string) : option space :=
  match corpus with
  | [] => None
  | _ :: _ => Some (build_space corpus)
  end.

(** Modelled from the spec: [fit_and_build(corpus) -> (space, matrix)]
    ([fit_transform] and [toarray]): one row per corpus entry. *)
Definition fit_and_build (corpus : list string) : option (space * matrix) :=
  match fit corpus with
  | None => None
  | Some sp => Some (sp, map (encode sp) corpus)
  end.

(** ** Similarity Index *)

Fixpoint dot (u v : vec) : R :=
  match u, v with
  | x :: u', y :: v' => (x * y + dot u' v')%R
  | _, _ => 0%R
  end.

Definition norm (v : vec) : R := sqrt (dot v v).

(** Modelled from the spec: the cosine similarity of the Similarity Index,
    [dot(q, row) / (norm(q) * norm(row))], and 0.0 when a norm is zero. *)
Definition cosine (q row : vec) : R :=
  if Req_dec_T (norm q) 0 then 0%R
  else if Req_dec_T (norm row) 0 then 0%R
  else (dot q row / (norm q * norm row))%R.

Definition same_columns (q : vec) (m : matrix) : bool :=
  forallb (fun row => (length row =? length q)%nat) m.

(** Modelled from the spec: [score_all(query_vector, matrix)], scikit-learn's
    [cosine_similarity(query_vector, matrix)[0]], which is not part of the
    repository: the cosine similarity of the query and every row, in row
    order. The spec asks for a query and a matrix of the same column count;
    [None] is the [ValueError] of a call that breaks this. *)
Definition score_all (q : vec) (m : matrix) : option (list R) :=
  if same_columns q m then Some (map (cosine q) m) else None.

(** [np.vstack(rows)]: [None] is the [ValueError] it raises on no row or on
    rows of different lengths. *)
Definition vstack (rows : list vec) : option matrix :=
  match rows with
  | [] => None
  | r :: _ => if same_columns r rows then Some rows else None
  end.

(** ** The document store *)

Record DB : Type := {
  routes : list dict
}.

(** [db.routes.find({"embedding": {"$exists": True}}, {"_id": 0})] *)
Definition find_with_embedding (db : DB) : list dict :=
  map (dict_del "_id")
      (filter (fun d => match dict_get "embedding" d with
                        | Some _ => true
                        | None => false
                        end)
              (routes db)).

Definition value_eqb_str (v : option value) (s : string) : bool :=
  match v with
  | Some (VStr s') => String.eqb s s'
  | _ => false
  end.

(** [db.routes.find({"source": s, "dest": d}, {"_id": 0, "embedding": 0})] *)
Definition find_direct (s d : string) (db : DB) : list dict :=
  map (fun r => dict_del "embedding" (dict_del "_id" r))
      (filter (fun r => value_eqb_str (dict_get "source" r) s
                        && value_eqb_str (dict_get "dest" r) d)
              (routes db)).

(** [cursor.to_list(length=n)] *)
Definition to_list {A : Type} (n : nat) (cursor : list A) : list A := firstn n cursor.

(** ** [get_similar_routes] ([server.py], the recommender) *)

Notation "x <- m ;; k" := (bind m (fun x => k))
  (at level 61, m at next level, right associativity).

(** The four entries of [route_info] made from one stored route; [None] is
    the [KeyError] of a missing field. *)
Definition route_info_of (route : dict) : option dict :=
  match dict_get "route_text" route, dict_get "source" route, dict_get "dest" route with
  | Some t, Some s, Some d =>
      Some [("route_text", t); ("source", s); ("dest", d);
            ("airline", dict_get_default "airline" (VStr "Unknown") route)]
  | _, _, _ => None
  end.

Definition load_embedding (route : dict) : option vec :=
  match dict_get "embedding" route with
  | Some b => pickle_loads b
  | None => None
  end.

(** The loop over [all_routes]: the lists [embeddings] and [route_info] it
    leaves. An exception inside the [try] skips the rest of that turn: a
    route whose embedding does not load adds nothing, a route whose embedding
    loads but which lacks a field has already added its embedding. *)
Fixpoint extract (all_routes : list dict) : list vec * list dict :=
  match all_routes with
  | [] => ([], [])
  | route :: rest =>
      let '(embeddings, route_info) := extract rest in
      match load_embedding route with
      | None => (embeddings, route_info)
      | Some emb =>
          match route_info_of route with
          | Some info => (emb :: embeddings, info :: route_info)
          | None => (emb :: embeddings, route_info)
          end
      end
  end.

(** The texts handed to the vectorizer; it raises on a value that is not a
    string. *)
Fixpoint texts_of (route_info : list dict) : option (list string) :=
  match route_info with
  | [] => Some []
  | r :: rest =>
      match dict_get "route_text" r, texts_of rest with
      | Some (VStr t), Some ts => Some (t :: ts)
      | _, _ => None
      end
  end.

(** Fit the vectorizer on the stored route texts, transform the query, stack
    the embeddings and score them. *)
Definition score_routes (route_text : string) (embeddings : list vec)
           (route_info : list dict) : outcome (list R) :=
  all_route_texts <- raising (texts_of route_info) ;;
  vectorizer <- raising (fit all_route_texts) ;;
  let query_vector := encode vectorizer route_text in
  embeddings_matrix <- raising (vstack embeddings) ;;
  raising (score_all query_vector embeddings_matrix).

(** [{**route_info[idx], 'similarity': float(similarities[idx])}] *)
Definition result_record (route_info : list dict) (similarities : list R)
           (idx : nat) : outcome dict :=
  info <- raising (nth_error route_info idx) ;;
  s <- raising (nth_error similarities idx) ;;
  Ok (dict_set "similarity" (VFloat s) info).

Definition get_similar_routes (source destination : string) (top_k : Z) (db : DB)
  : outcome (list dict) :=
  let route_text := (upper source ++ "-" ++ upper destination)%string in
  let all_routes := find_with_embedding db in
  match all_routes with
  | [] => HTTP404 "No routes with embeddings found"
  | _ :: _ =>
      let '(embeddings, route_info) := extract all_routes in
      match embeddings with
      | [] => HTTP404 "No valid embeddings found"
      | _ :: _ =>
          similarities <- score_routes route_text embeddings route_info ;;
          let top_idx := top_indices Rleb similarities top_k in
          for_each (result_record route_info similarities) top_idx
      end
  end.

(** ** [get_direct_routes] *)

Definition get_direct_routes (source destination : string) (db : DB) : list dict :=
  to_list 100 (find_direct (upper source) (upper destination) db).

(** ** [ingest_routes_with_embeddings] ([data_ingestion.py]) *)

(** A line of [routes.dat] that survived [dropna]. *)
Record route_row : Type := {
  airline : option string;
  airline_id : option Z;
  source : string;
  source_id : Z;
  dest : string;
  dest_id : Z;
  codeshare : option string;
  stops : option Z;
  equipment : option string
}.

Definition route_text_of (row : route_row) : string :=
  (source row ++ "-" ++ dest row)%string.

Definition or_none {A : Type} (f : A -> value) (o : option A) : value :=
  match o with
  | Some a => f a
  | None => VNone
  end.

Definition route_record (idx : nat) (row : route_row) (emb : vec) : dict :=
  [("id", VInt (Z.of_nat idx + 1));
   ("airline", match airline row with Some a => VStr a | None => VNaN end);
   ("airline_id", or_none VInt (airline_id row));
   ("source", VStr (source row));
   ("source_id", VInt (source_id row));
   ("dest", VStr (dest row));
   ("dest_id", VInt (dest_id row));
   ("codeshare", or_none VStr (codeshare row));
   ("stops", VInt (match stops row with Some n => n | None => 0%Z end));
   ("equipment", or_none VStr (equipment row));
   ("route_text", VStr (route_text_of row));
   ("embedding", pickle_dumps emb)].

Fixpoint route_records (idx : nat) (rows : list route_row) (dense : matrix) : list dict :=
  match rows, dense with
  | row :: rows', emb :: dense' =>
      route_record idx row emb :: route_records (S idx) rows' dense'
  | _, _ => []
  end.

(** [insert_many]: the store gives each document an [_id]. *)
Fixpoint insert_many (next_id : nat) (records : list dict) : list dict :=
  match records with
  | [] => []
  | r :: records' => (("_id", VInt (Z.of_nat next_id)) :: r) :: insert_many (S next_id) records'
  end.

(** The routes collection is emptied and refilled (in batches of 1000, in
    order) with one record per row, each carrying its row of the TF-IDF
    matrix. The vectorizer runs first: when it raises, the store is as it
    was. *)
Definition ingest_routes_with_embeddings (rows : list route_row) (db : DB)
  : outcome (nat * DB) :=
  fitted <- raising (fit_and_build (map route_text_of rows)) ;;
  let dense := snd fitted in
  Ok (length rows, {| routes := insert_many 0 (route_records 0 rows dense) |}).

(** ** The API as a state machine over the store *)


Inductive response : Type :=
| Routes (o : outcome (list dict))
| Ingested (o : outcome nat)
| Rejected422.



(** The records of a response, none for an error. *)
Definition emitted (o : outcome (list dict)) : list dict :=
  match o with
  | Ok rs => rs
  | _ => []
  end.

(** ** Orders used in the statements *)

Section RankingOrder.
Context {A : Type} (leb : A -> A -> bool).

End RankingOrder.

Definition score_at (similarities : list R) (i : nat) : R := nth i similarities 0%R.



(** ** The stored corpus, as the statements speak of it *)

Definition loads (route : dict) : bool :=
  match load_embedding route with
  | Some _ => true
  | None => false
  end.


Definition text_of (route : dict) : string :=
  match dict_get "route_text" route with
  | Some (VStr t) => t
  | _ => ""
  end.

Definition embedding_of (route : dict) : vec :=
  match load_embedding route with
  | Some emb => emb
  | None => []
  end.

Definition info_of (route : dict) : dict :=
  match route_info_of route with
  | Some info => info
  | None => []
  end.

Definition corpus_texts (db : DB) : list string :=
  map text_of (filter loads (routes db)).

Definition corpus_embeddings (db : DB) : list vec :=
  map embedding_of (filter loads (routes db)).

Definition corpus_info (db : DB) : list dict :=
  map info_of (filter loads (routes db)).

(** A route the recommender can use: it has its three fields, its text is a
    string, and its fingerprint has [columns] entries. *)
Definition usable (columns : nat) (route : dict) : Prop :=
  (exists t, dict_get "route_text" route = Some (VStr t))
  /\ dict_get "source" route <> None
  /\ dict_get "dest" route <> None
  /\ length (embedding_of route) = columns.

(** The corpus invariant of the recommender: some stored fingerprint
    deserializes, and the ones that do belong to the space that is fitted
    again over their route texts. *)
Definition consistent (db : DB) : Prop :=
  filter loads (routes db) <> []
  /\ Forall (usable (length (vocabulary (build_space (corpus_texts db)))))
            (filter loads (routes db)).

Definition query_text (source destination : string) : string :=
  (upper source ++ "-" ++ upper destination)%string.

(** The score of every readable stored route against a query text. *)
Definition stored_similarities (db : DB) (route_text : string) : list R :=
  map (cosine (encode (build_space (corpus_texts db)) route_text))
      (corpus_embeddings db).

(** The record emitted for row [idx]. *)
Definition ranked_record (db : DB) (similarities : list R) (idx : nat) : dict :=
  dict_set "similarity" (VFloat (score_at similarities idx))
           (nth idx (corpus_info db) []).

(** The documents stored for [rows] when fingerprints are taken in [sp],
    identifiers starting at [i] and [j]. *)
Definition stored_records (sp : space) (i j : nat) (rows : list route_row)
  : list dict :=
  insert_many i (route_records j rows (map (encode sp) (map route_text_of rows))).

(** The store that ingesting [rows] leaves. *)
Definition ingested (rows : list route_row) : DB :=
  {| routes := stored_records (build_space (map route_text_of rows)) 0 0 rows |}.

(** The [route_info] entry of an ingested row. *)
Definition row_info (row : route_row) : dict :=
  [("route_text", VStr (route_text_of row));
   ("source", VStr (source row));
   ("dest", VStr (dest row));
   ("airline", match airline row with Some a => VStr a | None => VNaN end)].

(** A line of [routes.dat] with only its carrier and its two airports. *)
Definition plain_row (carrier : option string) (s d : string) : route_row :=
  {| airline := carrier; airline_id := None; source := s; source_id := 0%Z;
     dest := d; dest_id := 0%Z; codeshare := None; stops := None;
     equipment := None |}.

(** One route flown by two carriers. *)
Definition two_carriers : list route_row :=
  [plain_row (Some "AA") "JFK" "LAX"; plain_row (Some "DL") "JFK" "LAX"].

(** The corpus ["JFK-LAX"; "LAX-JFK"; "JFK-SFO"]. *)
Definition three_routes (c0 c1 c2 : option string) : list route_row :=
  [plain_row c0 "JFK" "LAX"; plain_row c1 "LAX" "JFK"; plain_row c2 "JFK" "SFO"].

(** The outcome is not a "not found" answer. *)
Definition never_404 {A : Type} (o : outcome A) : Prop :=
  forall detail, o <> HTTP404 detail.




(** ** Small stores *)

(** A stored route whose [embedding] bytes are not a pickle. *)
Definition corrupt_route : dict :=
  [("_id", VInt 7); ("route_text", VStr "JFK-LAX"); ("source", VStr "JFK");
   ("dest", VStr "LAX"); ("embedding", VBytes (Corrupt "garbage"))].

(** One stored route, without an [airline] field, with the fingerprint of
    its text in the space of the one-text corpus. *)
Definition unlabelled_route : dict :=
  [("_id", VInt 1); ("route_text", VStr "A-B"); ("source", VStr "A");
   ("dest", VStr "B");
   ("embedding", pickle_dumps (encode (build_space ["A-B"]) "A-B"))].

(** 101 stored routes from JFK to LAX. *)
Definition busy_store : DB :=
  {| routes := map (fun n => [("_id", VInt (Z.of_nat n)); ("source", VStr "JFK");
                              ("dest", VStr "LAX"); ("stops", VInt 0);
                              ("embedding", VBytes (Corrupt ""))])
                   (seq 0 101) |}.

(** ** [get_routes_by_airport] ([server.py]) *)

(** MongoDB's match of a stored value against an integer: numbers are
    compared by value, whatever their type. *)
Definition value_eqb_int (v : option value) (z : Z) : bool :=
  match v with
  | Some (VInt z') => Z.eqb z z'
  | Some (VFloat x) => if Req_dec_T x (IZR z) then true else false
  | _ => false
  end.

(** [db.routes.find({"$or": [{"source_id": airport_id}, {"dest_id": airport_id}]},
    {"_id": 0, "embedding": 0})] *)
Definition find_by_airport (airport_id : Z) (db : DB) : list dict :=
  map (fun r => dict_del "embedding" (dict_del "_id" r))
      (filter (fun r => value_eqb_int (dict_get "source_id" r) airport_id
                        || value_eqb_int (dict_get "dest_id" r) airport_id)
              (routes db)).

(** [cursor.limit(n)], for a positive [n]. *)
Definition cursor_limit {A : Type} (n : nat) (cursor : list A) : list A :=
  firstn n cursor.

(** [limit: int = Query(50, ge=1, le=200)] *)
Definition limit_valid (limit : Z) : bool := ((1 <=? limit) && (limit <=? 200))%Z.

Definition get_routes_by_airport (airport_id limit : Z) (db : DB) : response :=
  if limit_valid limit
  then Routes (Ok (to_list (Z.to_nat limit)
                           (cursor_limit (Z.to_nat limit)
                                         (find_by_airport airport_id db))))
  else Rejected422.

(** ** The insertion loop of [ingest_routes_with_embeddings] *)

(** The loop over the rows: [records] is the batch being filled, [stored]
    the collection so far; the batch is inserted and emptied when it has
    [batch] records, and what is left of it is inserted after the loop. *)
Fixpoint insert_batches (batch idx : nat) (rows : list route_row) (dense : matrix)
         (records stored : list dict) : list dict :=
  match rows, dense with
  | row :: rows', emb :: dense' =>
      let records' := records ++ [route_record idx row emb] in
      if (batch <=? length records')%nat
      then insert_batches batch (S idx) rows' dense' []
                          (stored ++ insert_many (length stored) records')
      else insert_batches batch (S idx) rows' dense' records' stored
  | _, _ =>
      match records with
      | [] => stored
      | _ :: _ => stored ++ insert_many (length stored) records
      end
  end.

(** [ingest_routes_with_embeddings] with its loop: the vectorizer, then
    [delete_many({})], then the insertion in batches of 1000. *)
Definition ingest_routes_batched (rows : list route_row) (db : DB)
  : outcome (nat * DB) :=
  fitted <- raising (fit_and_build (map route_text_of rows)) ;;
  let dense := snd fitted in
  let emptied : list dict := [] in
  Ok (length rows, {| routes := insert_batches 1000 0 rows dense [] emptied |}).

(** ** Stored routes, as the statements speak of them *)

(** What a lookup shows of the route stored for row [idx]: its record
    without [_id] and [embedding]. *)
Definition route_public (idx : nat) (row : route_row) : dict :=
  [("id", VInt (Z.of_nat idx + 1));
   ("airline", match airline row with Some a => VStr a | None => VNaN end);
   ("airline_id", or_none VInt (airline_id row));
   ("source", VStr (source row));
   ("source_id", VInt (source_id row));
   ("dest", VStr (dest row));
   ("dest_id", VInt (dest_id row));
   ("codeshare", or_none VStr (codeshare row));
   ("stops", VInt (match stops row with Some n => n | None => 0%Z end));
   ("equipment", or_none VStr (equipment row));
   ("route_text", VStr (route_text_of row))].

(** The rows with their positions, counted from [start]. *)
Definition indexed_from (start : nat) (rows : list route_row) : list (nat * route_row) :=
  combine (seq start (length rows)) rows.

Definition public_of (ir : nat * route_row) : dict := route_public (fst ir) (snd ir).

(** The route has the three fields [route_info] is made of. *)
Definition has_fields (route : dict) : bool :=
  match route_info_of route with
  | Some _ => true
  | None => false
  end.


(** A stored route whose fingerprint deserializes and which has no [dest]. *)
Definition fieldless_route : dict :=
  [("_id", VInt 3); ("route_text", VStr "A-B"); ("source", VStr "A");
   ("embedding", pickle_dumps [1%R])].

(** * Properties *)

(** ** The model on small inputs *)

Example argsort_ints : argsort Z.leb [3; 1; 2; 1]%Z = [1; 3; 2; 0]%nat.
Proof. reflexivity. Qed.

Example top_indices_ints : top_indices Z.leb [3; 1; 2; 1]%Z 2 = [0; 2]%nat.
Proof. reflexivity. Qed.

Example top_indices_ties : top_indices Z.leb [5; 5; 1]%Z 2 = [1; 0]%nat.
Proof. reflexivity. Qed.

Example ngrams_a_b : char_wb_ngrams "A-B" = [" A"; "A-"; "-B"; "B "; " A-"; "A-B"; "-B "; " A-B"; "A-B "; " A-B "].
Proof. reflexivity. Qed.

Example upper_jfk : upper "jfk" = "JFK".
Proof. reflexivity. Qed.

Example select_small : select_features ["AB"; "AC"] = [" A"; "AB"; "B "; " AB"; "AB "; " AB "; "AC"; "C "; " AC"; "AC "; " AC "].
Proof. reflexivity. Qed.


(** ** Ranking *)

Section RankingFacts.
Context {A : Type} (leb : A -> A -> bool).
Hypothesis leb_total : forall x y, leb x y = true \/ leb y x = true.
Hypothesis leb_trans :
  forall x y z, leb x y = true -> leb y z = true -> leb x z = true.

Lemma insert_perm (x : A * nat) (l : list (A * nat)) :
  Permutation (insert leb x l) (x :: l).
Proof.
  induction l as [|y l IH]; simpl; [reflexivity|].
  destruct (leb (fst x) (fst y)); [reflexivity|].
  rewrite IH. apply perm_swap.
Qed.

Lemma sort_pairs_perm (l : list (A * nat)) : Permutation (sort_pairs leb l) l.
Proof.
  induction l as [|x l IH]; simpl; [reflexivity|].
  rewrite insert_perm. now constructor.
Qed.



Lemma snd_enumerate (a : list A) : map snd (enumerate a) = seq 0 (length a).
Proof.
  unfold enumerate. generalize 0. induction a as [|x a IH]; intros s; simpl;
    [reflexivity|]. now rewrite IH.
Qed.


Lemma argsort_perm (a : list A) :
  Permutation (argsort leb a) (seq 0 (length a)).
Proof.
  unfold argsort. rewrite <- snd_enumerate.
  apply Permutation_map, sort_pairs_perm.
Qed.

Lemma argsort_length (a : list A) : length (argsort leb a) = length a.
Proof.
  rewrite (Permutation_length (argsort_perm a)). apply length_seq.
Qed.

Lemma slice_from_last {B : Type} (l : list B) (k : Z) :
  (1 <= k)%Z ->
  slice_from (- k) l = skipn (length l - Z.to_nat k) l.
Proof.
  intros Hk. unfold slice_from.
  replace (- k <? 0)%Z with true by (symmetry; apply Z.ltb_lt; lia).
  f_equal. lia.
Qed.


End RankingFacts.










(** ** Cosine similarity *)

Local Open Scope R_scope.

Lemma dot_self_nonneg (v : vec) : 0 <= dot v v.
Proof. induction v as [|x v IH]; simpl; nra. Qed.






Lemma norm_nonneg (v : vec) : 0 <= norm v.
Proof. apply sqrt_pos. Qed.

Lemma norm_sqr (v : vec) : norm v * norm v = dot v v.
Proof. apply sqrt_sqrt, dot_self_nonneg. Qed.






Lemma cosine_quotient (q row : vec) :
  norm q <> 0 -> norm row <> 0 ->
  cosine q row = dot q row / (norm q * norm row) /\ 0 < norm q * norm row.
Proof.
  intros Hq Hr. unfold cosine.
  destruct (Req_dec_T (norm q) 0); [contradiction|].
  destruct (Req_dec_T (norm row) 0); [contradiction|].
  split; [reflexivity|].
  pose proof (norm_nonneg q). pose proof (norm_nonneg row).
  apply Rmult_lt_0_compat; lra.
Qed.



Lemma cosine_self (v : vec) : norm v <> 0 -> cosine v v = 1.
Proof.
  intros Hv. destruct (cosine_quotient v v Hv Hv) as [-> Hpos].
  rewrite norm_sqr in *. unfold Rdiv. apply Rinv_r. lra.
Qed.

Lemma same_columns_true (q : vec) (m : matrix) :
  same_columns q m = true <-> Forall (fun row => length row = length q) m.
Proof.
  unfold same_columns. rewrite forallb_forall, Forall_forall.
  split; intros H row Hrow; [apply Nat.eqb_eq|apply Nat.eqb_eq]; auto.
Qed.

(** ** The extraction loop *)

Local Open Scope nat_scope.

Lemma dict_get_del (k k' : string) (d : dict) :
  k <> k' -> dict_get k (dict_del k' d) = dict_get k d.
Proof.
  intros Hk. induction d as [|[k0 v] d IH]; simpl; [reflexivity|].
  destruct (String.eqb k' k0) eqn:E'; simpl.
  - apply String.eqb_eq in E'. subst k0.
    destruct (String.eqb k k') eqn:E; [apply String.eqb_eq in E; contradiction|].
    exact IH.
  - destruct (String.eqb k k0); [reflexivity|exact IH].
Qed.

Lemma load_embedding_del (r : dict) :
  load_embedding (dict_del "_id" r) = load_embedding r.
Proof. unfold load_embedding. now rewrite dict_get_del. Qed.

Lemma route_info_of_del (r : dict) :
  route_info_of (dict_del "_id" r) = route_info_of r.
Proof.
  unfold route_info_of, dict_get_default. now rewrite !dict_get_del.
Qed.

Lemma loads_del (r : dict) : loads (dict_del "_id" r) = loads r.
Proof. unfold loads. now rewrite load_embedding_del. Qed.

Lemma loads_has_embedding (r : dict) :
  loads r = true -> dict_get "embedding" r <> None.
Proof.
  unfold loads, load_embedding. destruct (dict_get "embedding" r); [discriminate|].
  discriminate.
Qed.

Lemma filter_map_commute {B C : Type} (f : B -> C) (p : C -> bool) (l : list B) :
  filter p (map f l) = map f (filter (fun x => p (f x)) l).
Proof.
  induction l as [|x l IH]; simpl; [reflexivity|].
  destruct (p (f x)); simpl; now rewrite IH.
Qed.

Lemma filter_filter_sub {B : Type} (p q : B -> bool) (l : list B) :
  (forall x, p x = true -> q x = true) ->
  filter p (filter q l) = filter p l.
Proof.
  intros Hpq. induction l as [|x l IH]; simpl; [reflexivity|].
  destruct (q x) eqn:Q; simpl.
  - destruct (p x); now rewrite IH.
  - destruct (p x) eqn:P; [apply Hpq in P; congruence|exact IH].
Qed.

(** The routes that load, among the ones the query finds, are the stored
    routes that load, without their [_id]. *)
Lemma find_loads (db : DB) :
  filter loads (find_with_embedding db)
  = map (dict_del "_id") (filter loads (routes db)).
Proof.
  unfold find_with_embedding. rewrite filter_map_commute.
  f_equal. rewrite (filter_ext _ loads) by apply loads_del.
  apply filter_filter_sub. intros r Hr. apply loads_has_embedding in Hr.
  destruct (dict_get "embedding" r); congruence.
Qed.


Lemma extract_embeddings (rs : list dict) :
  fst (extract rs) = map embedding_of (filter loads rs).
Proof.
  induction rs as [|r rs IH]; simpl; [reflexivity|].
  destruct (extract rs) as [embs infos]. simpl in IH.
  unfold loads. destruct (load_embedding r) eqn:E; simpl.
  - unfold embedding_of at 1. rewrite E.
    destruct (route_info_of r); simpl; now rewrite IH.
  - exact IH.
Qed.

Lemma extract_info (rs : list dict) :
  Forall (fun r => route_info_of r <> None) (filter loads rs) ->
  snd (extract rs) = map info_of (filter loads rs).
Proof.
  induction rs as [|r rs IH]; simpl; [reflexivity|].
  destruct (extract rs) as [embs infos]. simpl in IH.
  unfold loads. destruct (load_embedding r) eqn:E; simpl.
  - intros H. inversion H as [|? ? Hr Hrs]; subst.
    unfold info_of at 1. destruct (route_info_of r); [|contradiction].
    simpl. now rewrite IH.
  - exact IH.
Qed.

Lemma extract_empty_iff (rs : list dict) :
  fst (extract rs) = [] <-> Forall (fun r => load_embedding r = None) rs.
Proof.
  rewrite extract_embeddings. induction rs as [|r rs IH]; simpl.
  - split; auto.
  - unfold loads at 1. destruct (load_embedding r) eqn:E; simpl.
    + split; [discriminate|]. intros H. inversion H; congruence.
    + rewrite IH. split; intros H; [now constructor|now inversion H].
Qed.

Lemma usable_info (n : nat) (r : dict) : usable n r -> route_info_of r <> None.
Proof.
  intros ((t & Ht) & Hs & Hd & _). unfold route_info_of. rewrite Ht.
  destruct (dict_get "source" r); [|contradiction].
  destruct (dict_get "dest" r); [discriminate|contradiction].
Qed.

Lemma info_text (n : nat) (r : dict) :
  usable n r -> dict_get "route_text" (info_of r) = Some (VStr (text_of r)).
Proof.
  intros ((t & Ht) & Hs & Hd & _). unfold info_of, route_info_of, text_of.
  rewrite Ht.
  destruct (dict_get "source" r); [|contradiction].
  destruct (dict_get "dest" r); [|contradiction].
  reflexivity.
Qed.

Lemma texts_of_info (n : nat) (rs : list dict) :
  Forall (usable n) rs -> texts_of (map info_of rs) = Some (map text_of rs).
Proof.
  induction 1 as [|r rs Hr Hrs IH]; simpl; [reflexivity|].
  now rewrite (info_text n r Hr), IH.
Qed.

Lemma text_of_del (r : dict) : text_of (dict_del "_id" r) = text_of r.
Proof. unfold text_of. now rewrite dict_get_del. Qed.

Lemma embedding_of_del (r : dict) : embedding_of (dict_del "_id" r) = embedding_of r.
Proof. unfold embedding_of. now rewrite load_embedding_del. Qed.

Lemma info_of_del (r : dict) : info_of (dict_del "_id" r) = info_of r.
Proof. unfold info_of. now rewrite route_info_of_del. Qed.

Lemma usable_del (n : nat) (r : dict) : usable n r -> usable n (dict_del "_id" r).
Proof.
  unfold usable. rewrite embedding_of_del, !dict_get_del by discriminate. auto.
Qed.

(** What the loop leaves for a store, whatever the store holds. *)
Lemma extract_find_embeddings (db : DB) :
  fst (extract (find_with_embedding db)) = corpus_embeddings db.
Proof.
  rewrite extract_embeddings, find_loads, map_map.
  apply map_ext, embedding_of_del.
Qed.

Lemma extract_find_info (db : DB) :
  consistent db ->
  snd (extract (find_with_embedding db)) = corpus_info db.
Proof.
  intros [_ Hu]. rewrite extract_info; rewrite find_loads.
  - rewrite map_map. apply map_ext, info_of_del.
  - rewrite Forall_map. eapply Forall_impl; [|exact Hu].
    intros r Hr. rewrite route_info_of_del. eapply usable_info, Hr.
Qed.

(** ** Scoring the stored routes *)

Lemma encode_length (corpus : list string) (text : string) :
  length (encode (build_space corpus) text) = length (vocabulary (build_space corpus)).
Proof.
  unfold encode. rewrite length_map, length_combine. simpl.
  rewrite length_map. apply Nat.min_id.
Qed.

Lemma vstack_same (n : nat) (rows : list vec) :
  rows <> [] -> Forall (fun r => length r = n) rows -> vstack rows = Some rows.
Proof.
  intros Hne Hall. destruct rows as [|r rows]; [contradiction|].
  unfold vstack.
  replace (same_columns r (r :: rows)) with true; [reflexivity|].
  symmetry. apply same_columns_true.
  inversion Hall; subst. eapply Forall_impl; [|exact Hall].
  simpl. intros; congruence.
Qed.

Lemma score_all_same (q : vec) (m : matrix) :
  Forall (fun row => length row = length q) m ->
  score_all q m = Some (map (cosine q) m).
Proof.
  intros H. unfold score_all.
  now replace (same_columns q m) with true by (symmetry; now apply same_columns_true).
Qed.

Lemma for_each_map {B C : Type} (f : B -> outcome C) (g : B -> C) (l : list B) :
  (forall x, In x l -> f x = Ok (g x)) -> for_each f l = Ok (map g l).
Proof.
  induction l as [|x l IH]; intros H; simpl; [reflexivity|].
  rewrite H by now left. simpl. rewrite IH by (intros; apply H; now right).
  reflexivity.
Qed.

Lemma top_indices_bound (a : list R) (k : Z) (i : nat) :
  In i (top_indices Rleb a k) -> i < length a.
Proof.
  unfold top_indices, slice_from. intros H. apply in_rev in H.
  match type of H with In _ (skipn ?n _) => set (m := n) in H end.
  assert (H' : In i (argsort Rleb a)).
  { rewrite <- (firstn_skipn m (argsort Rleb a)). apply in_or_app. right. exact H. }
  apply (Permutation_in _ (argsort_perm Rleb a)) in H'.
  apply in_seq in H'. lia.
Qed.

Lemma map_nonempty {B C : Type} (f : B -> C) (l : list B) : l <> [] -> map f l <> [].
Proof. destruct l; [contradiction|discriminate]. Qed.

Lemma consistent_score_routes (db : DB) (route_text : string) :
  consistent db ->
  score_routes route_text (corpus_embeddings db) (corpus_info db)
  = Ok (stored_similarities db route_text).
Proof.
  intros [Hne Hu]. unfold score_routes, corpus_info.
  rewrite (texts_of_info _ _ Hu). fold (corpus_texts db). simpl.
  assert (Htexts : corpus_texts db <> []).
  { now apply map_nonempty. }
  unfold fit. destruct (corpus_texts db) as [|t ts] eqn:Et; [contradiction|].
  rewrite <- Et in *. simpl.
  assert (Hlen : Forall (fun r => length r = length (vocabulary (build_space (corpus_texts db))))
                        (corpus_embeddings db)).
  { unfold corpus_embeddings. rewrite Forall_map.
    eapply Forall_impl; [|exact Hu]. intros r (_ & _ & _ & H). exact H. }
  assert (Hv : vstack (corpus_embeddings db) = Some (corpus_embeddings db)).
  { eapply vstack_same; [now apply map_nonempty|exact Hlen]. }
  rewrite Hv.
  simpl. rewrite score_all_same; [reflexivity|].
  eapply Forall_impl; [|exact Hlen]. intros r Hr. simpl in Hr.
  now rewrite encode_length.
Qed.

Lemma stored_similarities_length (db : DB) (route_text : string) :
  length (stored_similarities db route_text) = length (filter loads (routes db)).
Proof. unfold stored_similarities, corpus_embeddings. now rewrite !length_map. Qed.

Lemma corpus_info_length (db : DB) :
  length (corpus_info db) = length (filter loads (routes db)).
Proof. unfold corpus_info. now rewrite length_map. Qed.

(** On a consistent corpus the recommender answers, with the records of the
    ranked rows. *)
Lemma get_similar_routes_ok (db : DB) (s d : string) (k : Z) :
  consistent db ->
  get_similar_routes s d k db
  = Ok (map (ranked_record db (stored_similarities db (query_text s d)))
            (top_indices Rleb (stored_similarities db (query_text s d)) k)).
Proof.
  intros Hc. unfold get_similar_routes. fold (query_text s d).
  pose proof (find_loads db) as Hfind.
  pose proof (extract_find_embeddings db) as Hemb.
  pose proof (extract_find_info db Hc) as Hinfo.
  destruct Hc as [Hne Hu].
  destruct (find_with_embedding db) as [|r0 rs] eqn:Ef.
  { simpl in Hfind. destruct (filter loads (routes db)); [contradiction|discriminate]. }
  rewrite <- Ef in *. clear Ef r0 rs.
  destruct (extract (find_with_embedding db)) as [embs infos]. simpl in Hemb, Hinfo.
  subst embs infos.
  destruct (corpus_embeddings db) as [|e0 es] eqn:Ee.
  { now apply (map_nonempty embedding_of) in Hne. }
  rewrite <- Ee. clear Ee e0 es.
  rewrite (consistent_score_routes db _ (conj Hne Hu)). simpl.
  apply for_each_map. intros idx Hidx.
  apply top_indices_bound in Hidx.
  unfold result_record, ranked_record, score_at.
  rewrite (nth_error_nth' (corpus_info db) [])
    by (rewrite corpus_info_length, <- (stored_similarities_length db (query_text s d)); exact Hidx).
  simpl. rewrite (nth_error_nth' _ 0%R Hidx). reflexivity.
Qed.

(** ** Ingestion *)

Lemma ingest_ok (rows : list route_row) (db : DB) :
  rows <> [] ->
  ingest_routes_with_embeddings rows db = Ok (length rows, ingested rows).
Proof.
  intros Hne. unfold ingest_routes_with_embeddings, fit_and_build, fit.
  destruct rows as [|row rows]; [contradiction|]. reflexivity.
Qed.

Lemma ingest_empty (db : DB) : ingest_routes_with_embeddings [] db = Unhandled.
Proof. reflexivity. Qed.

Section IngestedRecords.
Variable sp : space.

Lemma stored_loads (rows : list route_row) (i j : nat) :
  filter loads (stored_records sp i j rows) = stored_records sp i j rows.
Proof.
  revert i j. induction rows as [|row rows IH]; intros i j; [reflexivity|].
  unfold stored_records in *. simpl. now rewrite IH.
Qed.

Lemma stored_texts (rows : list route_row) (i j : nat) :
  map text_of (stored_records sp i j rows) = map route_text_of rows.
Proof.
  revert i j. induction rows as [|row rows IH]; intros i j; [reflexivity|].
  unfold stored_records in *. simpl. now rewrite IH.
Qed.

Lemma stored_embeddings (rows : list route_row) (i j : nat) :
  map embedding_of (stored_records sp i j rows) = map (encode sp) (map route_text_of rows).
Proof.
  revert i j. induction rows as [|row rows IH]; intros i j; [reflexivity|].
  unfold stored_records in *. simpl. now rewrite IH.
Qed.

Lemma stored_info (rows : list route_row) (i j : nat) :
  map info_of (stored_records sp i j rows) = map row_info rows.
Proof.
  revert i j. induction rows as [|row rows IH]; intros i j; [reflexivity|].
  unfold stored_records in *. simpl. now rewrite IH.
Qed.

Lemma stored_usable (rows : list route_row) (i j : nat) :
  Forall (fun r => (exists t, dict_get "route_text" r = Some (VStr t))
                   /\ dict_get "source" r <> None
                   /\ dict_get "dest" r <> None)
         (stored_records sp i j rows).
Proof.
  revert i j. induction rows as [|row rows IH]; intros i j; [constructor|].
  unfold stored_records in *. simpl. constructor; [|apply IH].
  simpl. repeat split; [eexists; reflexivity|discriminate|discriminate].
Qed.
End IngestedRecords.

Lemma ingested_loads (rows : list route_row) :
  filter loads (routes (ingested rows)) = routes (ingested rows).
Proof. apply stored_loads. Qed.

Lemma ingested_texts (rows : list route_row) :
  corpus_texts (ingested rows) = map route_text_of rows.
Proof. unfold corpus_texts. rewrite ingested_loads. apply stored_texts. Qed.

Lemma ingested_embeddings (rows : list route_row) :
  corpus_embeddings (ingested rows)
  = map (encode (build_space (map route_text_of rows))) (map route_text_of rows).
Proof. unfold corpus_embeddings. rewrite ingested_loads. apply stored_embeddings. Qed.

Lemma ingested_info (rows : list route_row) :
  corpus_info (ingested rows) = map row_info rows.
Proof. unfold corpus_info. rewrite ingested_loads. apply stored_info. Qed.

(** Ingestion establishes the corpus invariant. *)
Lemma ingested_consistent (rows : list route_row) :
  rows <> [] -> consistent (ingested rows).
Proof.
  intros Hne. unfold consistent. rewrite ingested_texts, ingested_loads. split.
  - intros H. apply (f_equal (map text_of)) in H.
    unfold ingested in H. simpl in H. rewrite stored_texts in H.
    destruct rows; [contradiction|discriminate].
  - pose proof (ingested_embeddings rows) as He.
    unfold corpus_embeddings in He. rewrite ingested_loads in He.
    pose proof (stored_usable (build_space (map route_text_of rows)) rows 0 0) as Hu.
    fold (routes (ingested rows)) in Hu.
    assert (Hl : Forall (fun e => length e = length (vocabulary (build_space (map route_text_of rows))))
                        (map embedding_of (routes (ingested rows)))).
    { rewrite He, Forall_map, Forall_forall. intros t _. apply encode_length. }
    rewrite Forall_map in Hl.
    rewrite Forall_forall in *. intros r Hr.
    destruct (Hu r Hr) as (Ht & Hs & Hd).
    repeat split; auto.
Qed.

(** ** The fingerprint space *)

Local Open Scope R_scope.

Lemma combine_map_self {B C : Type} (g : B -> C) (l : list B) :
  combine l (map g l) = map (fun x => (x, g x)) l.
Proof. induction l as [|x l IH]; simpl; [reflexivity|]. now rewrite IH. Qed.

(** A fingerprint, feature by feature. *)
Lemma encode_map (corpus : list string) (text : string) :
  encode (build_space corpus) text
  = map (fun f => INR (occurrences f (char_wb_ngrams text))
                  * smooth_idf (length corpus) (document_frequency corpus f))
        (select_features corpus).
Proof.
  unfold encode, build_space. simpl. rewrite combine_map_self, map_map.
  reflexivity.
Qed.

Lemma document_frequency_le (corpus : list string) (f : string) :
  (document_frequency corpus f <= length corpus)%nat.
Proof. apply filter_length_le. Qed.

Lemma smooth_idf_pos (n df : nat) : (df <= n)%nat -> 1 <= smooth_idf n df.
Proof.
  intros H. unfold smooth_idf. apply le_INR in H.
  pose proof (pos_INR df) as Hdf.
  assert (Hq : 1 <= (1 + INR n) / (1 + INR df)).
  { apply Rmult_le_reg_r with (1 + INR df); [lra|].
    unfold Rdiv. rewrite Rmult_assoc, Rinv_l by lra. lra. }
  destruct (Rle_lt_or_eq_dec _ _ Hq) as [Hlt|Heq].
  - pose proof (ln_increasing 1 _ ltac:(lra) Hlt) as Hln. rewrite ln_1 in Hln. lra.
  - rewrite <- Heq, ln_1. lra.
Qed.


Lemma dot_pos_of_in (v : vec) (x : R) : In x v -> x <> 0 -> 0 < dot v v.
Proof.
  induction v as [|y v IH]; simpl; [contradiction|].
  pose proof (dot_self_nonneg v).
  intros [->|Hx] Hne; [nra|]. specialize (IH Hx Hne). nra.
Qed.

Lemma norm_nonzero (v : vec) : 0 < dot v v -> norm v <> 0.
Proof.
  intros H Hn. pose proof (norm_sqr v) as Hs. rewrite Hn in Hs. lra.
Qed.

(** A text that has a retained feature has a fingerprint of non-zero norm. *)
Lemma encode_norm_nonzero (corpus : list string) (text f : string) :
  In f (select_features corpus) ->
  occurrences f (char_wb_ngrams text) <> 0%nat ->
  norm (encode (build_space corpus) text) <> 0.
Proof.
  intros Hf Hocc. apply norm_nonzero. rewrite encode_map.
  eapply dot_pos_of_in.
  - apply in_map_iff. exists f. split; [reflexivity|exact Hf].
  - pose proof (smooth_idf_pos _ _ (document_frequency_le corpus f)).
    apply not_0_INR in Hocc.
    pose proof (pos_INR (occurrences f (char_wb_ngrams text))). nra.
Qed.

Lemma in_by_eqb (f : string) (l : list string) :
  existsb (String.eqb f) l = true -> In f l.
Proof.
  intros H. apply existsb_exists in H. destruct H as (g & Hg & E).
  apply String.eqb_eq in E. now subst.
Qed.

(** On a concrete corpus: the feature is retained; the feature occurs, or
    does not occur, in the text. *)
Ltac retained := apply in_by_eqb; vm_compute; reflexivity.
Ltac counted := vm_compute; first [discriminate | reflexivity].

(** ** Two tied scores *)



(** * The claims *)

Local Open Scope nat_scope.




Lemma top_indices_all (a : list R) (k : Z) :
  (Z.of_nat (length a) <= k)%Z -> (1 <= k)%Z ->
  Permutation (top_indices Rleb a k) (seq 0 (length a)).
Proof.
  intros Hn Hk. unfold top_indices.
  rewrite slice_from_last, argsort_length by assumption.
  replace (length a - Z.to_nat k) with 0 by lia. simpl.
  rewrite <- Permutation_rev. apply argsort_perm.
Qed.





(** ** Upper case *)

Lemma upper_ascii_idempotent (c : ascii) : upper_ascii (upper_ascii c) = upper_ascii c.
Proof. destruct c as [[] [] [] [] [] [] [] []]; reflexivity. Qed.

Lemma upper_idempotent (s : string) : upper (upper s) = upper s.
Proof.
  induction s as [|c s IH]; simpl; [reflexivity|].
  now rewrite upper_ascii_idempotent, IH.
Qed.

(** C7. The airport codes of [get_similar_routes] are read without regard
    to case: any codes and their upper-case forms give the same answer,
    record for record, as the codes are put in upper case before the query
    text is built; so do ["jfk"], ["lax"] and ["JFK"], ["LAX"]. *)
Theorem similar_routes_case_insensitive (db : DB) (s d : string) (top_k : Z) :
  get_similar_routes s d top_k db = get_similar_routes (upper s) (upper d) top_k db
  /\ get_similar_routes "jfk" "lax" top_k db = get_similar_routes "JFK" "LAX" top_k db.
Proof.
  split.
  - unfold get_similar_routes. now rewrite !upper_idempotent.
  - reflexivity.
Qed.

(** ** Not found *)

Lemma never_404_raising {B : Type} (o : option B) : never_404 (raising o).
Proof. destruct o; intros detail; discriminate. Qed.

Lemma never_404_bind {B C : Type} (m : outcome B) (f : B -> outcome C) :
  never_404 m -> (forall b, never_404 (f b)) -> never_404 (bind m f).
Proof.
  intros Hm Hf detail. destruct m as [b|d'|]; simpl.
  - apply Hf.
  - exfalso. now apply (Hm d').
  - discriminate.
Qed.








(** ** The emitted records *)

Lemma for_each_in {B C : Type} (f : B -> outcome C) (l : list B) (ys : list C) :
  for_each f l = Ok ys -> forall y, In y ys -> exists x, In x l /\ f x = Ok y.
Proof.
  revert ys. induction l as [|x l IH]; simpl; intros ys H y Hy.
  - inversion H; subst. contradiction.
  - destruct (f x) as [y0| |] eqn:Ex; simpl in H; try discriminate.
    destruct (for_each f l) as [ys0| |]; simpl in H; try discriminate.
    inversion H; subst. destruct Hy as [<-|Hy].
    + exists x. auto.
    + destruct (IH ys0 eq_refl y Hy) as (x' & Hx' & E). exists x'. auto.
Qed.

Lemma extract_info_in (rs : list dict) (info : dict) :
  In info (snd (extract rs)) ->
  exists r, In r rs /\ route_info_of r = Some info.
Proof.
  induction rs as [|r rs IH]; simpl; [contradiction|].
  destruct (extract rs) as [embs infos]. simpl in IH.
  destruct (load_embedding r); [destruct (route_info_of r) eqn:E|]; simpl;
    intros H.
  - destruct H as [<-|H]; [exists r; auto|].
    destruct (IH H) as (r' & Hr' & E'). exists r'. auto.
  - destruct (IH H) as (r' & Hr' & E'). exists r'. auto.
  - destruct (IH H) as (r' & Hr' & E'). exists r'. auto.
Qed.

Lemma emitted_from_info (db : DB) (s d : string) (k : Z) (r : dict) :
  In r (emitted (get_similar_routes s d k db)) ->
  exists info x,
    In info (snd (extract (find_with_embedding db)))
    /\ r = dict_set "similarity" (VFloat x) info.
Proof.
  unfold get_similar_routes.
  destruct (find_with_embedding db) as [|r0 rs] eqn:Ef; [contradiction|].
  rewrite <- Ef. clear Ef.
  destruct (extract (find_with_embedding db)) as [embs infos]. simpl.
  destruct embs as [|e es]; [contradiction|].
  destruct (score_routes _ _ _) as [sims| |]; simpl; try contradiction.
  destruct (for_each _ _) as [results| |] eqn:E; simpl; try contradiction.
  intros Hr. destruct (for_each_in _ _ _ E r Hr) as (idx & _ & Hidx).
  unfold result_record in Hidx.
  destruct (nth_error infos idx) as [info|] eqn:Ei; simpl in Hidx; [|discriminate].
  destruct (nth_error sims idx) as [x|]; simpl in Hidx; [|discriminate].
  inversion Hidx; subst. exists info, x. split; [|reflexivity].
  eapply nth_error_In, Ei.
Qed.

(** C9. Every record [get_similar_routes] emits has exactly the keys
    [route_text], [source], [dest], [airline] and [similarity], in this
    order, so it carries no [embedding]; its similarity is a float; its
    first three fields are those of a stored route, and its [airline] is
    that route's, or the string ["Unknown"] when the route has no such
    field. *)
Theorem emitted_record_shape (db : DB) (s d : string) (top_k : Z) :
  Forall (fun r =>
            dict_keys r = ["route_text"; "source"; "dest"; "airline"; "similarity"]%string
            /\ dict_get "embedding" r = None
            /\ (exists x, dict_get "similarity" r = Some (VFloat x))
            /\ exists route,
                In route (routes db)
                /\ dict_get "route_text" r = dict_get "route_text" route
                /\ dict_get "source" r = dict_get "source" route
                /\ dict_get "dest" r = dict_get "dest" route
                /\ dict_get "airline" r
                   = Some (dict_get_default "airline" (VStr "Unknown") route)
                /\ (dict_get "airline" route = None ->
                    dict_get "airline" r = Some (VStr "Unknown")))
         (emitted (get_similar_routes s d top_k db)).
Proof.
  rewrite Forall_forall. intros r Hr.
  destruct (emitted_from_info db s d top_k r Hr) as (info & x & Hinfo & ->).
  destruct (extract_info_in _ _ Hinfo) as (r' & Hr' & Einfo).
  unfold find_with_embedding in Hr'. apply in_map_iff in Hr'.
  destruct Hr' as (route & <- & Hroute). apply filter_In in Hroute.
  destruct Hroute as [Hroute _].
  rewrite route_info_of_del in Einfo. unfold route_info_of in Einfo.
  destruct (dict_get "route_text" route) as [t|] eqn:Et; [|discriminate].
  destruct (dict_get "source" route) as [src|] eqn:Es; [|discriminate].
  destruct (dict_get "dest" route) as [dst|] eqn:Ed; [|discriminate].
  inversion Einfo; subst info. clear Einfo.
  repeat split; try reflexivity.
  - exists x. reflexivity.
  - exists route. repeat split; auto.
    intros Ha. simpl. unfold dict_get_default. now rewrite Ha.
Qed.

(** ** Direct routes *)

(** C10. [get_direct_routes] answers with the first 100 of the stored routes
    whose [source] and [dest] are the two codes in upper case, without their
    [_id] and [embedding]: never more than 100 records, exactly 100 when
    more routes match, and the matches after the hundredth are left out. *)
Theorem direct_routes_capped (db : DB) (s d : string) :
  let matching :=
    filter (fun r => value_eqb_str (dict_get "source" r) (upper s)
                     && value_eqb_str (dict_get "dest" r) (upper d))
           (routes db) in
  get_direct_routes s d db
  = map (fun r => dict_del "embedding" (dict_del "_id" r)) (firstn 100 matching)
  /\ length (get_direct_routes s d db) = Nat.min 100 (length matching)
  /\ length (get_direct_routes s d db) <= 100
  /\ (100 < length matching ->
      length (get_direct_routes s d db) = 100
      /\ skipn 100 matching <> []
      /\ map (fun r => dict_del "embedding" (dict_del "_id" r)) matching
         = get_direct_routes s d db
           ++ map (fun r => dict_del "embedding" (dict_del "_id" r))
                  (skipn 100 matching)).
Proof.
  intros matching. unfold get_direct_routes, to_list, find_direct.
  fold matching. rewrite firstn_map, length_map, length_firstn.
  split; [reflexivity|]. split; [reflexivity|]. split; [lia|].
  intros Hmore. split; [lia|]. split.
  - intros H. apply (f_equal (@length dict)) in H.
    rewrite length_skipn in H. simpl in H. lia.
  - rewrite <- map_app, firstn_skipn. reflexivity.
Qed.

(** ** The Similarity Index *)

Local Open Scope R_scope.





(** ** The Fingerprint Builder *)

Local Open Scope nat_scope.

Section FeatureRanking.
Variable freq : string -> nat.

Lemma insert_by_freq_perm (f : string) (l : list string) :
  Permutation (insert_by_freq freq f l) (f :: l).
Proof.
  induction l as [|g l IH]; simpl; [reflexivity|].
  destruct (freq g <=? freq f); [reflexivity|].
  rewrite IH. apply perm_swap.
Qed.

Lemma sort_by_freq_perm (l : list string) : Permutation (sort_by_freq freq l) l.
Proof.
  induction l as [|f l IH]; simpl; [reflexivity|].
  rewrite insert_by_freq_perm. now constructor.
Qed.


End FeatureRanking.

Lemma select_features_length (corpus : list string) :
  length (select_features corpus)
  = Nat.min max_features (length (distinct (flat_map char_wb_ngrams corpus))).
Proof.
  unfold select_features. rewrite length_firstn.
  now rewrite (Permutation_length (sort_by_freq_perm _ _)).
Qed.

(** C5. For a corpus of [N] route strings, [N] not zero, the Fingerprint
    Builder does not fail and its matrix has [N] rows, each with one entry
    per retained feature; the retained features are 128 or, when the corpus
    has fewer distinct features, all of them. Ingesting rows with these
    route texts stores [N] routes, the route of row [i] with row [i] of the
    matrix as its embedding. *)
Theorem fingerprint_matrix_shape (corpus : list string) :
  corpus <> [] ->
  exists sp m,
    fit_and_build corpus = Some (sp, m)
    /\ length m = length corpus
    /\ Forall (fun row => length row = length (vocabulary sp)) m
    /\ length (vocabulary sp)
       = Nat.min 128 (length (distinct (flat_map char_wb_ngrams corpus)))
    /\ length (vocabulary sp) <= 128
    /\ (forall rows db,
          map route_text_of rows = corpus ->
          exists db',
            ingest_routes_with_embeddings rows db = Ok (length corpus, db')
            /\ map embedding_of (routes db') = m).
Proof.
  intros Hne. exists (build_space corpus), (map (encode (build_space corpus)) corpus).
  split; [destruct corpus; [contradiction|reflexivity]|].
  split; [apply length_map|]. split; [|split; [|split]].
  - rewrite Forall_map, Forall_forall. intros t _. apply encode_length.
  - apply select_features_length.
  - change (vocabulary (build_space corpus)) with (select_features corpus).
    rewrite select_features_length. unfold max_features. lia.
  - intros rows db Hrows. exists (ingested rows). subst corpus. split.
    + rewrite length_map. apply ingest_ok. now destruct rows.
    + apply stored_embeddings.
Qed.

Lemma fingerprint_matrix_shape_witness :
  ["JFK-LAX"; "LAX-JFK"; "JFK-SFO"]%string <> []
  /\ exists sp m,
       fit_and_build ["JFK-LAX"; "LAX-JFK"; "JFK-SFO"]%string = Some (sp, m)
       /\ length m = length ["JFK-LAX"; "LAX-JFK"; "JFK-SFO"]%string
       /\ Forall (fun row => length row = length (vocabulary sp)) m
       /\ length (vocabulary sp)
          = Nat.min 128 (length (distinct (flat_map char_wb_ngrams
                                             ["JFK-LAX"; "LAX-JFK"; "JFK-SFO"]%string)))
       /\ length (vocabulary sp) <= 128
       /\ (forall rows db,
             map route_text_of rows = ["JFK-LAX"; "LAX-JFK"; "JFK-SFO"]%string ->
             exists db',
               ingest_routes_with_embeddings rows db
               = Ok (length ["JFK-LAX"; "LAX-JFK"; "JFK-SFO"]%string, db')
               /\ map embedding_of (routes db') = m).
Proof.
  assert (H : ["JFK-LAX"; "LAX-JFK"; "JFK-SFO"]%string <> []) by discriminate.
  split; [exact H|].
  exact (fingerprint_matrix_shape ["JFK-LAX"; "LAX-JFK"; "JFK-SFO"]%string H).
Defined.

(** ** Determinism *)






(** ** Strict Cauchy-Schwarz *)

Local Open Scope R_scope.







(** ** A row that scores above all others *)


(** ** The corpus JFK-LAX, LAX-JFK, JFK-SFO *)




(** ** The handlers on small stores *)

Local Open Scope nat_scope.

Example empty_store_not_found :
  get_similar_routes "JFK" "LAX" 5 {| routes := [] |}
  = HTTP404 "No routes with embeddings found".
Proof. reflexivity. Qed.

Example corrupt_store_not_found :
  get_similar_routes "JFK" "LAX" 5 {| routes := [corrupt_route; corrupt_route] |}
  = HTTP404 "No valid embeddings found".
Proof. reflexivity. Qed.

Example corrupt_route_skipped :
  extract (find_with_embedding {| routes := [corrupt_route; unlabelled_route] |})
  = ([encode (build_space ["A-B"]%string) "A-B"],
     [[("route_text", VStr "A-B"); ("source", VStr "A"); ("dest", VStr "B");
       ("airline", VStr "Unknown")]]).
Proof. reflexivity. Qed.

Lemma unlabelled_consistent :
  consistent {| routes := [corrupt_route; unlabelled_route] |}.
Proof.
  split; [discriminate|]. simpl. constructor; [|constructor].
  split; [eexists; reflexivity|].
  split; [discriminate|]. split; [discriminate|].
  apply encode_length.
Qed.

(** A stored route without an [airline] field is emitted with the airline
    ["Unknown"]; the corrupt route beside it is passed over. *)
Example unlabelled_route_emitted :
  get_similar_routes "a" "b" 3 {| routes := [corrupt_route; unlabelled_route] |}
  = Ok [[("route_text", VStr "A-B"); ("source", VStr "A"); ("dest", VStr "B");
         ("airline", VStr "Unknown"); ("similarity", VFloat 1)]].
Proof.
  rewrite (get_similar_routes_ok _ "a" "b" 3 unlabelled_consistent).
  change (query_text "a" "b") with "A-B"%string.
  assert (Hs : stored_similarities {| routes := [corrupt_route; unlabelled_route] |} "A-B"
               = [1%R]).
  { unfold stored_similarities. simpl. f_equal. apply cosine_self.
    apply encode_norm_nonzero with (f := "A-"%string).
    - retained.
    - counted. }
  rewrite Hs. reflexivity.
Qed.

Lemma direct_routes_capped_witness :
  length (get_direct_routes "jfk" "lax" busy_store) = 100
  /\ skipn 100 (filter (fun r => value_eqb_str (dict_get "source" r) (upper "jfk")
                                 && value_eqb_str (dict_get "dest" r) (upper "lax"))
                       (routes busy_store)) <> [].
Proof.
  destruct (direct_routes_capped busy_store "jfk" "lax") as (_ & _ & _ & H).
  assert (Hmore : 100 < length (filter (fun r => value_eqb_str (dict_get "source" r) (upper "jfk")
                                                 && value_eqb_str (dict_get "dest" r) (upper "lax"))
                                       (routes busy_store)))
    by (vm_compute; lia).
  destruct (H Hmore) as (H1 & H2 & _). split; [exact H1|exact H2].
Defined.


(** * Further properties of the code *)

(** ** The insertion loop *)

Local Open Scope nat_scope.

Lemma insert_many_app (n : nat) (a b : list dict) :
  insert_many n (a ++ b) = insert_many n a ++ insert_many (n + length a) b.
Proof.
  revert n. induction a as [|r a IH]; intros n; simpl.
  - now rewrite Nat.add_0_r.
  - rewrite IH. do 3 f_equal. lia.
Qed.

Lemma insert_many_length (n : nat) (l : list dict) : length (insert_many n l) = length l.
Proof.
  revert n. induction l as [|r l IH]; intros n; simpl; [reflexivity|].
  now rewrite IH.
Qed.

(** What the loop leaves, from any point of its run: the collection so far,
    then the pending batch and the records of the remaining rows, in order. *)
Lemma insert_batches_flat (batch : nat) (rows : list route_row) :
  forall idx dense records stored,
    insert_batches batch idx rows dense records stored
    = stored ++ insert_many (length stored)
                            (records ++ route_records idx rows dense).
Proof.
  induction rows as [|row rows IH]; intros idx dense records stored.
  - simpl. rewrite app_nil_r. destruct records; [now rewrite app_nil_r|reflexivity].
  - destruct dense as [|emb dense].
    + simpl. rewrite app_nil_r.
      destruct records; [now rewrite app_nil_r|reflexivity].
    + simpl.
      replace (records ++ route_record idx row emb :: route_records (S idx) rows dense)
        with ((records ++ [route_record idx row emb]) ++ route_records (S idx) rows dense)
        by now rewrite <- app_assoc.
      set (filled := records ++ [route_record idx row emb]).
      destruct (batch <=? length filled).
      * rewrite IH. simpl.
        rewrite (length_app stored), insert_many_length.
        rewrite (insert_many_app _ filled). now rewrite <- app_assoc.
      * now rewrite IH.
Qed.

(** X1. Inserting in batches of 1000 stores what one insertion of all the
    records would: [ingest_routes_with_embeddings] with its loop gives, for
    every input, the outcome and the store of the model the claims use.
    No record is lost or doubled at a batch boundary, and the records are
    stored in row order. *)
Theorem batched_ingestion_is_whole (rows : list route_row) (db : DB) :
  ingest_routes_batched rows db = ingest_routes_with_embeddings rows db
  /\ forall batch dense,
       insert_batches batch 0 rows dense [] []
       = insert_many 0 (route_records 0 rows dense).
Proof.
  split.
  - unfold ingest_routes_batched, ingest_routes_with_embeddings.
    destruct (raising (fit_and_build (map route_text_of rows))) as [fitted| |];
      simpl; try reflexivity.
    now rewrite insert_batches_flat.
  - intros batch dense. now rewrite insert_batches_flat.
Qed.

(** ** The identifiers of the stored routes *)

Lemma stored_ids (sp : space) (rows : list route_row) (i j : nat) :
  map (dict_get "id") (stored_records sp i j rows)
  = map (fun n => Some (VInt (Z.of_nat n + 1))) (seq j (length rows)).
Proof.
  revert i j. induction rows as [|row rows IH]; intros i j; [reflexivity|].
  unfold stored_records in *. simpl. now rewrite IH.
Qed.

(** X2. Ingesting [N] rows, [N] not zero, succeeds, reports [N] and stores
    [N] routes whose [id] fields are 1, 2, ..., [N] in row order; no two
    stored routes have the same [id]. *)
Theorem ingested_ids_are_positions (rows : list route_row) (db : DB) :
  rows <> [] ->
  exists db',
    ingest_routes_with_embeddings rows db = Ok (length rows, db')
    /\ length (routes db') = length rows
    /\ map (dict_get "id") (routes db')
       = map (fun n => Some (VInt (Z.of_nat n + 1))) (seq 0 (length rows))
    /\ NoDup (map (dict_get "id") (routes db')).
Proof.
  intros Hne. exists (ingested rows).
  split; [now apply ingest_ok|].
  assert (Hids : map (dict_get "id") (routes (ingested rows))
                 = map (fun n => Some (VInt (Z.of_nat n + 1))) (seq 0 (length rows)))
    by apply stored_ids.
  split; [|split; [exact Hids|]].
  - rewrite <- (length_map (dict_get "id")), Hids, length_map. apply length_seq.
  - rewrite Hids. apply Finite.Injective_map_NoDup; [|apply seq_NoDup].
    intros a b H. inversion H. lia.
Qed.

Lemma ingested_ids_are_positions_witness :
  two_carriers <> []
  /\ exists db',
       ingest_routes_with_embeddings two_carriers {| routes := [] |}
       = Ok (length two_carriers, db')
       /\ length (routes db') = length two_carriers
       /\ map (dict_get "id") (routes db')
          = map (fun n => Some (VInt (Z.of_nat n + 1))) (seq 0 (length two_carriers))
       /\ NoDup (map (dict_get "id") (routes db')).
Proof.
  assert (H : two_carriers <> []) by discriminate.
  split; [exact H|].
  exact (ingested_ids_are_positions two_carriers {| routes := [] |} H).
Defined.

(** ** Lookups *)

Lemma in_firstn {B : Type} (n : nat) (l : list B) (x : B) :
  In x (firstn n l) -> In x l.
Proof.
  intros H. rewrite <- (firstn_skipn n l). apply in_or_app. now left.
Qed.

Lemma dict_get_del_same (k : string) (d : dict) : dict_get k (dict_del k d) = None.
Proof.
  induction d as [|[k' v] d IH]; simpl; [reflexivity|].
  destruct (String.eqb k k') eqn:E; simpl; [exact IH|]. now rewrite E.
Qed.

Lemma projected_fields (k : string) (r : dict) :
  k <> "_id"%string -> k <> "embedding"%string ->
  dict_get k (dict_del "embedding" (dict_del "_id" r)) = dict_get k r.
Proof. intros H1 H2. now rewrite !dict_get_del. Qed.

Lemma projected_hidden (r : dict) :
  dict_get "_id" (dict_del "embedding" (dict_del "_id" r)) = None
  /\ dict_get "embedding" (dict_del "embedding" (dict_del "_id" r)) = None.
Proof.
  split; [|apply dict_get_del_same].
  rewrite dict_get_del by discriminate. apply dict_get_del_same.
Qed.

Lemma value_eqb_str_true (v : option value) (s : string) :
  value_eqb_str v s = true <-> v = Some (VStr s).
Proof.
  destruct v as [[| | | |s'|]|]; simpl; try (split; [discriminate|congruence]).
  rewrite String.eqb_eq. split; [now intros ->|now inversion 1].
Qed.

(** X3. Every record [get_direct_routes] returns is a stored route without
    its [_id] and [embedding], whose [source] and [dest] are the two codes
    in upper case; the codes are read without regard to case. So a stored
    route whose [source] or [dest] is not in upper case is never
    returned. *)
Theorem direct_routes_match (db : DB) (s d : string) :
  get_direct_routes s d db = get_direct_routes (upper s) (upper d) db
  /\ Forall (fun r =>
               dict_get "source" r = Some (VStr (upper s))
               /\ dict_get "dest" r = Some (VStr (upper d))
               /\ dict_get "_id" r = None
               /\ dict_get "embedding" r = None
               /\ exists route,
                   In route (routes db)
                   /\ r = dict_del "embedding" (dict_del "_id" route))
            (get_direct_routes s d db)
  /\ (forall route src,
        In route (routes db) ->
        dict_get "source" route = Some (VStr src) ->
        upper src <> src ->
        ~ In (dict_del "embedding" (dict_del "_id" route)) (get_direct_routes s d db)).
Proof.
  assert (Hall : forall r, In r (get_direct_routes s d db) ->
                 exists route, In route (routes db)
                               /\ r = dict_del "embedding" (dict_del "_id" route)
                               /\ dict_get "source" route = Some (VStr (upper s))
                               /\ dict_get "dest" route = Some (VStr (upper d))).
  { intros r Hr. unfold get_direct_routes, to_list, find_direct in Hr.
    apply in_firstn in Hr. apply in_map_iff in Hr.
    destruct Hr as (route & <- & Hroute). apply filter_In in Hroute.
    destruct Hroute as [Hin Hm]. apply andb_true_iff in Hm.
    rewrite !value_eqb_str_true in Hm. exists route. tauto. }
  split; [|split].
  - unfold get_direct_routes. now rewrite !upper_idempotent.
  - rewrite Forall_forall. intros r Hr.
    destruct (Hall r Hr) as (route & Hin & -> & Hs & Hd).
    rewrite !projected_fields by discriminate.
    destruct (projected_hidden route) as [H1 H2].
    repeat split; try assumption. exists route. auto.
  - intros route src Hin Hsrc Hup Hr.
    destruct (Hall _ Hr) as (route' & _ & Heq & Hs' & _).
    apply (f_equal (dict_get "source")) in Heq.
    rewrite !projected_fields in Heq by discriminate.
    rewrite Hsrc, Hs' in Heq. inversion Heq as [E].
    apply Hup. rewrite E. apply upper_idempotent.
Qed.

Lemma limit_valid_pos (limit : Z) : limit_valid limit = true -> (1 <= limit <= 200)%Z.
Proof. unfold limit_valid. rewrite andb_true_iff, !Z.leb_le. tauto. Qed.

(** X4. For a [limit] from 1 to 200, [get_routes_by_airport] answers with
    the first [limit] of the stored routes whose [source_id] or [dest_id] is
    the airport, in store order and without [_id] and [embedding]: never
    more than [limit] records, and all the matching routes when they are
    [limit] or fewer. A [limit] outside the range is refused and no route
    is read. *)
Theorem routes_by_airport_bounded (db : DB) (airport_id limit : Z) :
  let matching :=
    filter (fun r => value_eqb_int (dict_get "source_id" r) airport_id
                     || value_eqb_int (dict_get "dest_id" r) airport_id)
           (routes db) in
  (limit_valid limit = false -> get_routes_by_airport airport_id limit db = Rejected422)
  /\ (limit_valid limit = true ->
      exists results,
        get_routes_by_airport airport_id limit db = Routes (Ok results)
        /\ results = map (fun r => dict_del "embedding" (dict_del "_id" r))
                         (firstn (Z.to_nat limit) matching)
        /\ (Z.of_nat (length results) <= limit)%Z
        /\ ((Z.of_nat (length matching) <= limit)%Z ->
            results = map (fun r => dict_del "embedding" (dict_del "_id" r)) matching)
        /\ Forall (fun r =>
                     (value_eqb_int (dict_get "source_id" r) airport_id
                      || value_eqb_int (dict_get "dest_id" r) airport_id) = true
                     /\ dict_get "_id" r = None
                     /\ dict_get "embedding" r = None)
                  results).
Proof.
  intros matching. unfold get_routes_by_airport. split.
  - now intros ->.
  - intros Hv. rewrite Hv. apply limit_valid_pos in Hv.
    eexists. split; [reflexivity|].
    unfold to_list, cursor_limit, find_by_airport. fold matching.
    rewrite firstn_firstn, Nat.min_id, firstn_map.
    split; [reflexivity|]. split; [|split].
    + rewrite length_map, length_firstn. lia.
    + intros Hall. rewrite firstn_all2 by lia. reflexivity.
    + rewrite Forall_map, Forall_forall. intros r Hr.
      apply in_firstn in Hr. apply filter_In in Hr. destruct Hr as [_ Hm].
      rewrite !projected_fields by discriminate.
      destruct (projected_hidden r) as [H1 H2]. auto.
Qed.

Lemma routes_by_airport_bounded_witness :
  limit_valid 2 = true
  /\ exists results,
       get_routes_by_airport 0 2 (ingested (three_routes None None None))
       = Routes (Ok results)
       /\ (Z.of_nat (length results) <= 2)%Z.
Proof.
  assert (H : limit_valid 2 = true) by reflexivity.
  split; [exact H|].
  destruct (proj2 (routes_by_airport_bounded (ingested (three_routes None None None)) 0 2) H)
    as (results & Hr & _ & Hlen & _).
  exists results. split; [exact Hr|exact Hlen].
Defined.

(** ** Ingestion, then a lookup *)

Lemma stored_lookup (sp : space) (P : dict -> bool) (Q : nat * route_row -> bool) :
  (forall v idx row emb, P (("_id", v) :: route_record idx row emb) = Q (idx, row)) ->
  forall rows i j,
    map (fun r => dict_del "embedding" (dict_del "_id" r))
        (filter P (stored_records sp i j rows))
    = map public_of (filter Q (indexed_from j rows)).
Proof.
  intros HPQ. induction rows as [|row rows IH]; intros i j; [reflexivity|].
  unfold stored_records, indexed_from in *. simpl.
  rewrite HPQ. destruct (Q (j, row)); simpl; now rewrite IH.
Qed.

(** X5. Ingestion, then the direct lookup: on the store that ingesting
    [rows] leaves, [get_direct_routes] returns the records of the first 100
    rows whose [source] and [dest] are the two codes in upper case, in row
    order; the record of row [i] has the [id] [i + 1] and the fields of the
    row, [stops] being 0 for a row without stops, and it has no
    [embedding]. *)
Theorem ingested_direct_routes (rows : list route_row) (s d : string) :
  get_direct_routes s d (ingested rows)
  = map public_of
        (firstn 100 (filter (fun ir => String.eqb (upper s) (source (snd ir))
                                       && String.eqb (upper d) (dest (snd ir)))
                            (indexed_from 0 rows))).
Proof.
  unfold get_direct_routes, to_list, find_direct, ingested. cbn [routes].
  rewrite <- (firstn_map public_of). f_equal.
  apply stored_lookup. reflexivity.
Qed.

(** X6. Ingestion, then the lookup by airport: on the store that ingesting
    [rows] leaves and for a [limit] from 1 to 200, [get_routes_by_airport]
    returns the records of the first [limit] rows whose [source_id] or
    [dest_id] is the airport, in row order. *)
Theorem ingested_routes_by_airport (rows : list route_row) (airport_id limit : Z) :
  limit_valid limit = true ->
  get_routes_by_airport airport_id limit (ingested rows)
  = Routes (Ok (map public_of
                    (firstn (Z.to_nat limit)
                            (filter (fun ir => Z.eqb airport_id (source_id (snd ir))
                                               || Z.eqb airport_id (dest_id (snd ir)))
                                    (indexed_from 0 rows))))).
Proof.
  intros Hv. unfold get_routes_by_airport. rewrite Hv.
  unfold to_list, cursor_limit, find_by_airport, ingested. cbn [routes].
  rewrite firstn_firstn, Nat.min_id. do 2 f_equal.
  rewrite <- (firstn_map public_of). f_equal.
  apply stored_lookup. reflexivity.
Qed.

Lemma ingested_routes_by_airport_witness :
  limit_valid 1 = true
  /\ get_routes_by_airport 0 1 (ingested two_carriers)
     = Routes (Ok [route_public 0 (plain_row (Some "AA") "JFK" "LAX")]).
Proof.
  assert (H : limit_valid 1 = true) by reflexivity.
  split; [exact H|].
  exact (ingested_routes_by_airport two_carriers 0 1 H).
Defined.

(** ** The two lists of the extraction loop *)

Lemma filter_and_length {B : Type} (p q : B -> bool) (l : list B) :
  length (filter (fun x => p x && q x) l) <= length (filter p l)
  /\ (length (filter (fun x => p x && q x) l) = length (filter p l)
      <-> Forall (fun x => p x = true -> q x = true) l).
Proof.
  induction l as [|x l [IHle IHeq]]; simpl.
  - split; [lia|]. split; auto.
  - destruct (p x) eqn:P, (q x) eqn:Q; simpl.
    + split; [lia|]. rewrite Nat.succ_inj_wd, IHeq.
      split; intros H; [now constructor|now inversion H].
    + split; [lia|]. split; [lia|].
      intros H. inversion H as [|? ? Hx _]; subst. specialize (Hx P). congruence.
    + split; [lia|]. rewrite IHeq.
      split; intros H; [constructor; [congruence|assumption]|now inversion H].
    + split; [lia|]. rewrite IHeq.
      split; intros H; [constructor; [congruence|assumption]|now inversion H].
Qed.

Lemma extract_info_length (rs : list dict) :
  length (snd (extract rs)) = length (filter (fun r => loads r && has_fields r) rs).
Proof.
  induction rs as [|r rs IH]; simpl; [reflexivity|].
  destruct (extract rs) as [embs infos]. simpl in IH.
  unfold loads, has_fields.
  destruct (load_embedding r); [destruct (route_info_of r)|]; simpl; now rewrite IH.
Qed.

(** X7. The loop of [get_similar_routes] keeps one embedding for every route
    whose fingerprint deserializes, and one [route_info] entry for every
    such route that also has its [route_text], [source] and [dest]. So
    [route_info] is never longer than [embeddings], and the two have the
    same length exactly when no route with a readable fingerprint lacks a
    field. *)
Theorem extraction_alignment (all_routes : list dict) :
  let embeddings := fst (extract all_routes) in
  let route_info := snd (extract all_routes) in
  length embeddings = length (filter loads all_routes)
  /\ length route_info
     = length (filter (fun r => loads r && has_fields r) all_routes)
  /\ length route_info <= length embeddings
  /\ (length route_info = length embeddings
      <-> Forall (fun r => loads r = true -> has_fields r = true) all_routes).
Proof.
  intros embeddings route_info. unfold embeddings, route_info.
  rewrite extract_embeddings, length_map, extract_info_length.
  destruct (filter_and_length loads has_fields all_routes) as [Hle Heq].
  auto.
Qed.

(** ** A stored route without a field *)

Lemma never_404_score_routes (q : string) (embs : list vec) (infos : list dict) :
  never_404 (score_routes q embs infos).
Proof.
  unfold score_routes.
  apply never_404_bind; [apply never_404_raising|]. intros texts.
  apply never_404_bind; [apply never_404_raising|]. intros sp.
  apply never_404_bind; [apply never_404_raising|]. intros m.
  apply never_404_raising.
Qed.

Lemma score_routes_length (q : string) (embs : list vec) (infos : list dict)
      (sims : list R) :
  score_routes q embs infos = Ok sims -> length sims = length embs.
Proof.
  unfold score_routes.
  destruct (texts_of infos) as [texts|]; simpl; [|discriminate].
  destruct (fit texts) as [sp|]; simpl; [|discriminate].
  destruct (vstack embs) as [m|] eqn:Ev; simpl; [|discriminate].
  assert (Hm : m = embs).
  { unfold vstack in Ev. destruct embs as [|e es]; [discriminate|].
    destruct (same_columns e (e :: es)); [now inversion Ev|discriminate]. }
  subst m. unfold score_all.
  destruct (same_columns _ embs); simpl; [|discriminate].
  intros H. inversion H. now rewrite length_map.
Qed.

Lemma for_each_unhandled {B C : Type} (f : B -> outcome C) (l : list B) (x : B) :
  (forall y, never_404 (f y)) -> In x l -> f x = Unhandled ->
  for_each f l = Unhandled.
Proof.
  intros Hf. induction l as [|y l IH]; simpl; [contradiction|].
  intros Hin Hx. destruct (f y) as [b|detail|] eqn:Ey; simpl.
  - destruct Hin as [->|Hin]; [congruence|]. now rewrite IH.
  - exfalso. exact (Hf y detail Ey).
  - reflexivity.
Qed.

Lemma filter_and_lt {B : Type} (p q : B -> bool) (l : list B) (x : B) :
  In x l -> p x = true -> q x = false ->
  length (filter (fun y => p y && q y) l) < length (filter p l).
Proof.
  intros Hin Hp Hq.
  destruct (filter_and_length p q l) as [Hle Heq].
  destruct (Nat.eq_dec (length (filter (fun y => p y && q y) l)) (length (filter p l)))
    as [E|E]; [|lia].
  apply Heq in E. rewrite Forall_forall in E. specialize (E x Hin Hp). congruence.
Qed.

(** X8. When a stored route has a fingerprint that deserializes but lacks
    [route_text], [source] or [dest], and [top_k] is at least the number of
    routes with a readable fingerprint, [get_similar_routes] ends in an
    uncaught exception: the embedding of that route was appended before
    the missing field was looked up, so a ranked row has no [route_info]
    entry. It answers neither with records nor with "not found". *)
Theorem missing_field_raises (db : DB) (s d : string) (top_k : Z) :
  (exists r, In r (routes db) /\ loads r = true /\ has_fields r = false) ->
  (Z.of_nat (length (filter loads (routes db))) <= top_k)%Z ->
  get_similar_routes s d top_k db = Unhandled.
Proof.
  intros (r & Hin & Hl & Hf) Hk.
  assert (Hin' : In (dict_del "_id" r) (filter loads (find_with_embedding db))).
  { rewrite find_loads. apply in_map. apply filter_In. auto. }
  pose proof (extraction_alignment (find_with_embedding db)) as (He & Hi & _ & _).
  assert (Hlt : length (snd (extract (find_with_embedding db)))
                < length (fst (extract (find_with_embedding db)))).
  { rewrite He, Hi. apply filter_In in Hin'. destruct Hin' as [Hin' Hl'].
    apply filter_and_lt with (x := dict_del "_id" r); [assumption..|].
    unfold has_fields in *. now rewrite route_info_of_del. }
  assert (Hn : length (fst (extract (find_with_embedding db)))
               = length (filter loads (routes db))).
  { now rewrite He, find_loads, length_map. }
  unfold get_similar_routes.
  destruct (find_with_embedding db) as [|r0 rs] eqn:Ef; [contradiction|].
  rewrite <- Ef in *. clear Ef r0 rs.
  destruct (extract (find_with_embedding db)) as [embs infos]. simpl in Hlt, Hn.
  destruct embs as [|e es]; [simpl in Hlt; lia|].
  destruct (score_routes _ (e :: es) infos) as [sims|detail|] eqn:Es; simpl.
  - apply score_routes_length in Es.
    apply for_each_unhandled with (x := length infos).
    + intros idx. unfold result_record.
      apply never_404_bind; [apply never_404_raising|]. intros info.
      apply never_404_bind; [apply never_404_raising|]. intros x detail.
      discriminate.
    + apply (Permutation_in _ (Permutation_sym (top_indices_all sims top_k
               ltac:(lia) ltac:(simpl in *; lia)))).
      apply in_seq. lia.
    + unfold result_record.
      now rewrite (proj2 (nth_error_None infos (length infos)) (le_n _)).
  - exfalso. exact (never_404_score_routes _ _ _ detail Es).
  - reflexivity.
Qed.

Lemma missing_field_raises_witness :
  (exists r, In r [fieldless_route] /\ loads r = true /\ has_fields r = false)
  /\ (Z.of_nat (length (filter loads [fieldless_route])) <= 1)%Z
  /\ get_similar_routes "A" "B" 1 {| routes := [fieldless_route] |} = Unhandled.
Proof.
  assert (H1 : exists r, In r (routes {| routes := [fieldless_route] |})
                         /\ loads r = true /\ has_fields r = false).
  { exists fieldless_route. repeat split. now left. }
  assert (H2 : (Z.of_nat (length (filter loads (routes {| routes := [fieldless_route] |})))
                <= 1)%Z) by (simpl; lia).
  split; [exact H1|]. split; [exact H2|].
  exact (missing_field_raises {| routes := [fieldless_route] |} "A" "B" 1 H1 H2).
Defined.

(** ** Ingestion, then the recommender *)

Local Open Scope R_scope.









Local Open Scope nat_scope.

(** X11. Ingestion, then the recommender: every record emitted on an
    ingested store carries the [route_text], [source] and [dest] of an
    ingested row, and as [airline] the carrier of that row, or NaN when
    the row has none. The ingestion writes the [airline] field of every
    route, so the default ["Unknown"] is not what a row without a carrier
    gets. *)
Theorem ingested_airline_is_stored (rows : list route_row) (s d : string) (top_k : Z) :
  Forall (fun r =>
            exists row,
              In row rows
              /\ dict_get "route_text" r = Some (VStr (route_text_of row))
              /\ dict_get "source" r = Some (VStr (source row))
              /\ dict_get "dest" r = Some (VStr (dest row))
              /\ dict_get "airline" r
                 = Some (match airline row with Some a => VStr a | None => VNaN end))
         (emitted (get_similar_routes s d top_k (ingested rows))).
Proof.
  rewrite Forall_forall. intros r Hr.
  destruct rows as [|row0 rows0] eqn:Erows; [contradiction|]. rewrite <- Erows in *.
  assert (Hne : rows <> []) by (rewrite Erows; discriminate).
  destruct (emitted_from_info _ s d top_k r Hr) as (info & x & Hinfo & ->).
  rewrite (extract_find_info _ (ingested_consistent rows Hne)), ingested_info in Hinfo.
  apply in_map_iff in Hinfo. destruct Hinfo as (row & <- & Hrow).
  exists row. split; [exact Hrow|]. repeat split.
Qed.


